(** * Juke Jam: the retrieval-and-ranking engine of [music_search.py]

    A shallow embedding of [src/backend/musicSearch/music_search.py]:
    the inverted-index candidate retriever, the TF-IDF lexical ranker, the
    audio-feature reranker, the explanation generator and the time-context
    profiler, followed by the properties the specification states about
    them.

    Modelling conventions.
    - Python [float] values are real numbers ([R]): [math.log] is [ln],
      [math.sqrt] is [sqrt], and no rounding error, overflow or NaN is
      modelled.  Definitions over [R] are therefore not evaluated by
      computation; they are unfolded and reasoned about.
    - Python [int] track identifiers are [Z]; [len] values are [nat].
    - A [dict] is a [gmap], a [set] is a [gset].
    - [str] is [string]; [str.lower] and the [\w] character class are the
      ASCII ones, so the text model covers ASCII text.
    - A catalog row (a [dict] with string-valued and numeric columns) is a
      pair of maps, one per kind of column. *)

From Stdlib Require Import Reals Lra Lia ZArith Ascii String.
From Stdlib Require Import Sorting.Sorted Sorting.Permutation.
From stdpp Require Import gmap strings list fin_maps.

#[local] Open Scope string_scope.
#[local] Open Scope list_scope.
#[local] Set Warnings "-clear-no-such-hyp".

(** Comparisons of floats are decided by the order of the reals. *)
#[global] Instance Rle_decision (x y : R) : Decision (x <= y)%R := Rle_dec x y.
#[global] Instance Rlt_decision (x y : R) : Decision (x < y)%R := Rlt_dec x y.
#[global] Instance Req_decision : EqDecision R := Req_dec_T.
#[global] Instance R_inhabited : Inhabited R := populate 0%R.

(** ** Python primitives *)

Definition lower_ascii (c : ascii) : ascii :=
  let n := nat_of_ascii c in
  if (65 <=? n)%nat && (n <=? 90)%nat then ascii_of_nat (n + 32) else c.

(** [str.lower()] *)
Fixpoint lower (s : string) : string :=
  match s with
  | EmptyString => EmptyString
  | String c r => String (lower_ascii c) (lower r)
  end.

(** The character class [\w]: letters, digits and the underscore. *)
Definition is_word_char (c : ascii) : bool :=
  let n := nat_of_ascii c in
  ((48 <=? n)%nat && (n <=? 57)%nat)
  || ((65 <=? n)%nat && (n <=? 90)%nat)
  || ((97 <=? n)%nat && (n <=? 122)%nat)
  || (n =? 95)%nat.

Definition flush_word (cur : list ascii) : list string :=
  match cur with
  | [] => []
  | _ => [string_of_list_ascii (rev cur)]
  end.

(** [TOKEN_RE.findall]: the maximal runs of word characters, left to right.
    [cur] holds the run being read, most recent character first. *)
Fixpoint findall_words (cur : list ascii) (s : string) : list string :=
  match s with
  | EmptyString => flush_word cur
  | String c r =>
      if is_word_char c then findall_words (c :: cur) r
      else flush_word cur ++ findall_words [] r
  end.

(** Truthiness of an [Optional[str]]: [None] and the empty string are
    false. *)
Definition str_truthy (s : option string) : bool :=
  match s with
  | None => false
  | Some EmptyString => false
  | Some _ => true
  end.

(** Truthiness of a [str]. *)
Definition nonempty (s : string) : bool := str_truthy (Some s).

(** The string of a truthy [Optional[str]]. *)
Definition str_value (s : option string) : string := default EmptyString s.

Definition tokenize (text : option string) : list string :=
  match text with
  | None => []
  | Some EmptyString => []
  | Some t => findall_words [] (lower t)
  end.


(** ** Data model *)

(** The five inverted indexes, token to posting list. *)
Record Indexes := {
  ix_genre : gmap string (list Z);
  ix_mood : gmap string (list Z);
  ix_energy : gmap string (list Z);
  ix_title : gmap string (list Z);
  ix_artist : gmap string (list Z)
}.

(** A catalog row: its string-valued columns (title, artist_name, genre,
    mood_bucket, ...) and its numeric columns (popularity, energy, valence,
    danceability, acousticness, tempo, ...).  The empty [dict] is the row
    whose two maps are empty. *)
Record Song := {
  str_cols : gmap string string;
  num_cols : gmap string R
}.


(** [doc.get(col, default)] on a string column, the default being the
    empty string. *)
Definition get_str (s : Song) (col : string) : string :=
  default EmptyString (str_cols s !! col).

Record UserProfile := {
  avg_energy_preference : option R;
  top_genres : option (list string)
}.

(** [set(index.get(token, []))] *)
Definition postings (index : gmap string (list Z)) (token : string) : gset Z :=
  list_to_set (default [] (index !! token)).

(** ** Index helpers (for IDF) *)

Definition unique_doc_count (track_lookup : gmap Z Song) : nat :=
  size track_lookup.

Definition doc_freq_for_token (token : string)
    (title_index artist_index : gmap string (list Z)) : nat :=
  size (postings title_index token ∪ postings artist_index token).

Definition idf (token : string)
    (title_index artist_index : gmap string (list Z)) (N : nat) : R :=
  let df := doc_freq_for_token token title_index artist_index in
  (ln ((INR N + 1) / (INR df + 1)) + 1)%R.

(** ** Candidate retrieval (filters) *)

(** [set.intersection( *sets ) if sets else set()] *)
Definition intersect_all (sets : list (gset Z)) : gset Z :=
  match sets with
  | [] => ∅
  | s :: rest => foldl (∩) s rest
  end.

(** The hits of one text query against one text index, or [None] when the
    query contributes no filter (absent, empty, or without any token). *)
Definition text_query_hits (index : gmap string (list Z))
    (query : option string) : option (gset Z) :=
  if str_truthy query then
    match tokenize query with
    | [] => None
    | words => Some (intersect_all (map (postings index) words))
    end
  else None.

(** The [text_hits] variable after the title and the artist blocks. *)
Definition text_hits (indexes : Indexes)
    (title_query artist_query : option string) : option (gset Z) :=
  let after_title := text_query_hits (ix_title indexes) title_query in
  match text_query_hits (ix_artist indexes) artist_query with
  | None => after_title
  | Some artist_hits =>
      match after_title with
      | None => Some artist_hits
      | Some t => Some (t ∩ artist_hits)
      end
  end.

(** The loop [for g in genres: if g: genre_hits |= ...]. *)
Definition genre_hits (genre_index : gmap string (list Z))
    (genres : list string) : gset Z :=
  foldl (fun acc g =>
           if nonempty g then acc ∪ postings genre_index (lower g)
           else acc)
        ∅ genres.

(** Truthiness of an [Optional[Iterable[str]]]: [None] and the empty list
    are false. *)
Definition list_truthy {A} (l : option (list A)) : bool :=
  match l with
  | None | Some [] => false
  | Some _ => true
  end.

(** The list [sets] at the end of the function, one entry per active
    filter, in the order the code appends them. *)
Definition active_filter_sets (indexes : Indexes)
    (genres : option (list string)) (mood energy : option string)
    (title_query artist_query : option string) : list (gset Z) :=
  let sets0 :=
    match text_hits indexes title_query artist_query with
    | Some t => [t]
    | None => []
    end in
  let sets1 :=
    if list_truthy genres
    then sets0 ++ [genre_hits (ix_genre indexes) (default [] genres)]
    else sets0 in
  let sets2 :=
    if str_truthy mood
    then sets1 ++ [postings (ix_mood indexes) (lower (str_value mood))]
    else sets1 in
  if str_truthy energy
  then sets2 ++ [postings (ix_energy indexes) (lower (str_value energy))]
  else sets2.

(** The filter categories as the specification lists them (title text,
    artist text, genres, mood, energy), each with its hit set, [None] for a
    category that is not active. *)
Definition category_hits (indexes : Indexes)
    (genres : option (list string)) (mood energy : option string)
    (title_query artist_query : option string) : list (option (gset Z)) :=
  [ text_query_hits (ix_title indexes) title_query;
    text_query_hits (ix_artist indexes) artist_query;
    if list_truthy genres
    then Some (genre_hits (ix_genre indexes) (default [] genres)) else None;
    if str_truthy mood
    then Some (postings (ix_mood indexes) (lower (str_value mood)))
    else None;
    if str_truthy energy
    then Some (postings (ix_energy indexes) (lower (str_value energy)))
    else None ].

(** The index of the specification's retrieval scenario. *)
Definition scenario_indexes : Indexes :=
  {| ix_genre := {[ "pop" := [1; 2]%Z ]};
     ix_mood := {[ "sad" := [2; 3]%Z ]};
     ix_energy := ∅;
     ix_title := ∅;
     ix_artist := ∅ |}.

(** The set whose elements [retrieve_candidates] lists. *)
Definition retrieve_candidate_set (indexes : Indexes)
    (genres : option (list string)) (mood energy : option string)
    (title_query artist_query : option string) : gset Z :=
  intersect_all
    (active_filter_sets indexes genres mood energy title_query artist_query).

(** [retrieve_candidates]: [list(set)] enumerates the set in an order Python
    leaves unspecified; [elements] stands for that enumeration. *)
Definition retrieve_candidates (indexes : Indexes)
    (genres : option (list string)) (mood energy : option string)
    (title_query artist_query : option string) : list Z :=
  match active_filter_sets indexes genres mood energy
          title_query artist_query with
  | [] => []
  | sets => elements (intersect_all sets)
  end.

(** ** Sorting *)

(** [list.sort(key=...)] is stable; it is modelled by a stable insertion
    sort, generic in the key type and its order test [leb]. *)
Section StableSort.
Context {A K : Type} (leb : K -> K -> bool) (key : A -> K).


End StableSort.




(** ** TF-IDF scoring for text query *)








(** ** Feature-based similarity scoring (stage 2 reranking) *)

Definition AUDIO_FEATURES : list string :=
  ["energy"; "valence"; "danceability"; "acousticness"; "tempo"].

Definition _TEMPO_MIN : R := 40.
Definition _TEMPO_MAX : R := 220.

Definition _normalize_tempo (tempo : R) : R :=
  Rmax 0 (Rmin 1 ((tempo - _TEMPO_MIN) / (_TEMPO_MAX - _TEMPO_MIN))).

(** [record] is a song's numeric columns or the synthesized target. *)
Definition _build_feature_vector (record : gmap string R)
    (normalize_tempo : bool) : list R :=
  map (fun feat =>
         let val := default 0.5%R (record !! feat) in
         if bool_decide (feat = "tempo") && normalize_tempo
         then _normalize_tempo val else val)
      AUDIO_FEATURES.

(** [sum(...)] over floats. *)
Definition sum_R (l : list R) : R := foldl Rplus 0%R l.

(** Float division: a zero divisor raises [ZeroDivisionError], modelled by
    [None]. *)
Definition py_div (x y : R) : option R :=
  if Req_dec_T y 0 then None else Some (x / y)%R.

(** [math.sqrt(sum(x * x for x in a))] *)
Definition magnitude (a : list R) : R :=
  sqrt (sum_R (map (fun x => x * x)%R a)).

Definition cosine_similarity (a b : list R) : option R :=
  let dot := sum_R (zip_with Rmult a b) in
  let mag_a := magnitude a in
  let mag_b := magnitude b in
  if bool_decide (mag_a = 0%R) || bool_decide (mag_b = 0%R) then Some 0%R
  else py_div dot (mag_a * mag_b).

(** The table [adjacent] of [_mood_match_score]. *)
Definition adjacent : gmap string (gset string) :=
  {[ "happy" := {[ "hype"; "chill" ]};
     "hype" := {[ "happy" ]};
     "chill" := {[ "happy"; "sad"; "focus" ]};
     "sad" := {[ "chill"; "focus" ]};
     "focus" := {[ "chill"; "sad" ]} ]}.

Definition _mood_match_score (song_mood target_mood : string) : R :=
  if negb (nonempty song_mood) || negb (nonempty target_mood) then 0%R
  else if bool_decide (song_mood = target_mood) then 1%R
  else if bool_decide (target_mood ∈ default ∅ (adjacent !! song_mood))
       then 0.3%R
       else 0%R.

Definition _genre_match_score (song_genre : string)
    (user_genres : list string) : R :=
  if negb (nonempty song_genre) || negb (list_truthy (Some user_genres))
  then 0%R
  else if bool_decide (lower song_genre ∈ map lower user_genres) then 1%R
       else 0%R.

Definition activity_energy : gmap string R :=
  {[ "workout" := 0.85%R; "study" := 0.25%R;
     "relax" := 0.20%R; "commute" := 0.55%R ]}.

Definition mood_profile (valence danceability acousticness tempo : R)
    : gmap string R :=
  {[ "valence" := valence; "danceability" := danceability;
     "acousticness" := acousticness; "tempo" := tempo ]}.

Definition mood_profiles : gmap string (gmap string R) :=
  {[ "happy" := mood_profile 0.80 0.70 0.30 120;
     "sad" := mood_profile 0.20 0.30 0.60 85;
     "chill" := mood_profile 0.45 0.40 0.55 95;
     "hype" := mood_profile 0.75 0.85 0.15 140;
     "focus" := mood_profile 0.40 0.35 0.50 100 ]}.

Definition build_user_audio_vector (user_profile : UserProfile)
    (mood : string) (activity : option string) : list R :=
  let base_energy := default 0.5%R (avg_energy_preference user_profile) in
  let base_energy :=
    if str_truthy activity
    then default base_energy (activity_energy !! str_value activity)
    else base_energy in
  let mp := default (mood_profile 0.5 0.5 0.5 110) (mood_profiles !! mood) in
  let target : gmap string R :=
    {[ "energy" := base_energy;
       "valence" := mp !!! "valence";
       "danceability" := mp !!! "danceability";
       "acousticness" := mp !!! "acousticness";
       "tempo" := mp !!! "tempo" ]} in
  _build_feature_vector target true.

(** [round(x)] to the nearest integer, halves to the even neighbour. *)
Definition round_half_even (x : R) : Z :=
  let f := Int_part x in
  let d := frac_part x in
  if Rlt_dec d (1 / 2) then f
  else if Rlt_dec (1 / 2) d then (f + 1)%Z
  else if Z.even f then f else (f + 1)%Z.

(** [round(x, ndigits)] *)
Definition py_round (x : R) (ndigits : nat) : R :=
  (IZR (round_half_even (x * 10 ^ ndigits)) / 10 ^ ndigits)%R.

Definition score_candidate_song (song : Song) (user_vector : list R)
    (target_mood : string) (user_genres : list string)
    : option (R * gmap string R) :=
  let song_vector := _build_feature_vector (num_cols song) true in
  sim ← cosine_similarity user_vector song_vector;
  let mood_sc := _mood_match_score (get_str song "mood_bucket") target_mood in
  let genre_sc := _genre_match_score (get_str song "genre") user_genres in
  let pop_sc := (default 50 (num_cols song !! "popularity") / 100)%R in
  let final :=
    (0.45 * sim + 0.25 * mood_sc + 0.15 * genre_sc + 0.15 * pop_sc)%R in
  let breakdown : gmap string R :=
    {[ "audio_similarity" := py_round sim 4;
       "mood_match" := py_round mood_sc 4;
       "genre_match" := py_round genre_sc 4;
       "popularity" := py_round pop_sc 4;
       "final_score" := py_round final 4 ]} in
  Some (final, breakdown).



(** ** Explanation generator *)

(** [int(x)] on a float: truncation towards zero. *)
Definition py_int (x : R) : Z :=
  if Rle_dec 0 x then Int_part x else (- Int_part (- x))%Z.

(** The clauses [generate_explanation] can append to [reasons], each with
    the values its text is formatted from. *)
Inductive Reason :=
  | ExcellentAudioMatch (sim : R)
  | StrongAudioSimilarity (sim : R)
  | HighEnergyFits (song_energy : R) (activity : string)
  | LowEnergySuits (song_energy : R) (activity : string)
  | MoodMatches (song_mood : string)
  | MoodAdjacent (song_mood mood : string)
  | GenreInTopGenres (song_genre : string)
  | PopularTrack (pop : Z)
  | ContextFallback.

Definition explanation_reasons (song : Song) (breakdown : gmap string R)
    (user_genres : list string) (mood : string) (activity : option string)
    : list Reason :=
  let sim := default 0%R (breakdown !! "audio_similarity") in
  let audio :=
    if Rle_dec 0.95 sim then [ExcellentAudioMatch sim]
    else if Rle_dec 0.85 sim then [StrongAudioSimilarity sim]
    else [] in
  let song_energy := default 0.5%R (num_cols song !! "energy") in
  let energy :=
    if str_truthy activity then
      let a := str_value activity in
      if bool_decide (a = "workout") && bool_decide (0.7 <= song_energy)%R
      then [HighEnergyFits song_energy a]
      else if bool_decide (a = "study" \/ a = "relax")
              && bool_decide (song_energy <= 0.35)%R
           then [LowEnergySuits song_energy a]
           else []
    else [] in
  let song_mood := get_str song "mood_bucket" in
  let mood_clause :=
    if bool_decide (song_mood = mood) then [MoodMatches song_mood]
    else if Rlt_dec 0 (default 0%R (breakdown !! "mood_match"))
         then [MoodAdjacent song_mood mood]
         else [] in
  let song_genre := get_str song "genre" in
  let genre_clause :=
    if bool_decide (lower song_genre ∈ map lower user_genres)
    then [GenreInTopGenres song_genre] else [] in
  let pop := py_int (default 0%R (num_cols song !! "popularity")) in
  let pop_clause := if (75 <=? pop)%Z then [PopularTrack pop] else [] in
  let reasons := audio ++ energy ++ mood_clause ++ genre_clause ++ pop_clause in
  match reasons with
  | [] => [ContextFallback]
  | _ => reasons
  end.

(** The text of the clauses.  The number formats of the f-strings come
    from Python's formatting machinery and are taken as given. *)
Section Rendering.
Variable format_percent0 : R -> string.   (* [{x:.0%}] *)
Variable format_fixed2 : R -> string.     (* [{x:.2f}] *)
Variable format_int : Z -> string.        (* [{n}] *)

Definition dquote : string := String "034"%char EmptyString.
Definition middle_dot : string :=
  String "194"%char (String "183"%char EmptyString).

Definition render_reason (r : Reason) : string :=
  match r with
  | ExcellentAudioMatch sim =>
      "Audio profile is an excellent match (" +:+ format_percent0 sim +:+ ")"
  | StrongAudioSimilarity sim =>
      "Strong audio-feature similarity (" +:+ format_percent0 sim +:+ ")"
  | HighEnergyFits e a =>
      "High energy (" +:+ format_fixed2 e +:+ ") fits " +:+ a
  | LowEnergySuits e a =>
      "Low energy (" +:+ format_fixed2 e +:+ ") suits " +:+ a
  | MoodMatches m =>
      "Mood " +:+ dquote +:+ m +:+ dquote +:+ " matches your selection"
  | MoodAdjacent m t =>
      "Mood " +:+ dquote +:+ m +:+ dquote +:+ " is adjacent to "
      +:+ dquote +:+ t +:+ dquote
  | GenreInTopGenres g =>
      "Genre " +:+ dquote +:+ g +:+ dquote +:+ " is in your top genres"
  | PopularTrack pop =>
      "Popular track (popularity " +:+ format_int pop +:+ "/100)"
  | ContextFallback => "Matches your current context filters"
  end.

Fixpoint join (sep : string) (parts : list string) : string :=
  match parts with
  | [] => EmptyString
  | [p] => p
  | p :: rest => p +:+ sep +:+ join sep rest
  end.

Definition generate_explanation (song : Song) (breakdown : gmap string R)
    (user_genres : list string) (mood : string) (activity : option string)
    : string :=
  join (" " +:+ middle_dot +:+ " ")
    (map render_reason
       (explanation_reasons song breakdown user_genres mood activity)).
End Rendering.

(** ** Time-context profile builder *)









Section TimeContext.
(** Two pandas aggregations are taken as given: the first entry of
    [series.mode()] on a non-empty series, and the index of
    [series.value_counts()]. *)
Variable mode_first : list string -> string.
Variable value_counts_index : list string -> list string.





End TimeContext.


(** * Properties *)

(** ** Tokenizer *)

Example tokenize_lowercases_and_splits :
  tokenize (Some "Love Song!") = ["love"; "song"].
Proof. reflexivity. Qed.

Example tokenize_without_words : tokenize (Some "!?") = [].
Proof. reflexivity. Qed.

(** ** Smoothed IDF *)

Section IdfFacts.
#[local] Open Scope R_scope.

Lemma idf_log_arg_pos (N df : nat) : 0 < (INR N + 1) / (INR df + 1).
Proof.
  pose proof (pos_INR N). pose proof (pos_INR df).
  apply Rdiv_lt_0_compat; lra.
Qed.

Lemma smooth_ratio_ge_1 (N df : nat) :
  (df <= N)%nat -> 1 <= (INR N + 1) / (INR df + 1).
Proof.
  intros Hle. apply le_INR in Hle. pose proof (pos_INR df).
  apply (Rmult_le_reg_r (INR df + 1)); [lra|].
  unfold Rdiv. rewrite Rmult_assoc, Rinv_l by lra. lra.
Qed.

Lemma smooth_ratio_strict_anti (N df df' : nat) :
  (df < df')%nat -> (INR N + 1) / (INR df' + 1) < (INR N + 1) / (INR df + 1).
Proof.
  intros Hlt. apply lt_INR in Hlt.
  pose proof (pos_INR N). pose proof (pos_INR df).
  unfold Rdiv. apply Rmult_lt_compat_l; [lra|].
  apply Rinv_lt_contravar; [|lra].
  apply Rmult_lt_0_compat; lra.
Qed.

Lemma ln_ge_0 (x : R) : 1 <= x -> 0 <= ln x.
Proof.
  intros [Hlt | <-]; [|rewrite ln_1; lra].
  rewrite <- ln_1. left. apply ln_increasing; lra.
Qed.
End IdfFacts.

(** When every posting of a token refers to a catalog track, the document
    frequency cannot exceed the document count. *)
Lemma doc_freq_le_doc_count (token : string)
    (title_index artist_index : gmap string (list Z))
    (track_lookup : gmap Z Song) :
  postings title_index token ⊆ dom track_lookup ->
  postings artist_index token ⊆ dom track_lookup ->
  doc_freq_for_token token title_index artist_index
    <= unique_doc_count track_lookup.
Proof.
  intros Ht Ha. unfold doc_freq_for_token, unique_doc_count.
  rewrite <- size_dom. apply subseteq_size. by apply union_least.
Qed.

Lemma doc_freq_absent (token : string)
    (title_index artist_index : gmap string (list Z)) :
  title_index !! token = None -> artist_index !! token = None ->
  doc_freq_for_token token title_index artist_index = 0.
Proof.
  intros Ht Ha. unfold doc_freq_for_token, postings. rewrite Ht, Ha.
  reflexivity.
Qed.

(** C2 (as amended): the smoothed IDF is at least 1, hence strictly
    positive, whenever the document frequency does not exceed the document
    count [N]; for a fixed [N] a strictly larger document frequency gives a
    strictly smaller IDF; and a token absent from both indexes has IDF
    [ln (N + 1) + 1], which is strictly positive. *)
Theorem idf_positive_and_decreasing (N : nat) (token token' : string)
    (title_index artist_index title_index' artist_index'
       : gmap string (list Z)) :
  (doc_freq_for_token token title_index artist_index <= N ->
   (1 <= idf token title_index artist_index N)%R)
  /\ (doc_freq_for_token token title_index artist_index
        < doc_freq_for_token token' title_index' artist_index' ->
      (idf token' title_index' artist_index' N
         < idf token title_index artist_index N)%R)
  /\ (title_index !! token = None -> artist_index !! token = None ->
      idf token title_index artist_index N = (ln (INR N + 1) + 1)%R
      /\ (0 < idf token title_index artist_index N)%R).
Proof.
  unfold idf. split; [|split].
  - intros Hle. apply smooth_ratio_ge_1, ln_ge_0 in Hle. lra.
  - intros Hlt. apply Rplus_lt_compat_r, ln_increasing.
    + apply idf_log_arg_pos.
    + by apply smooth_ratio_strict_anti.
  - intros Ht Ha. rewrite (doc_freq_absent _ _ _ Ht Ha). simpl INR.
    replace ((INR N + 1) / (0 + 1))%R with (INR N + 1)%R by field.
    split; [reflexivity|].
    assert (0 <= ln (INR N + 1))%R; [|lra].
    apply ln_ge_0. pose proof (pos_INR N). lra.
Qed.

Lemma idf_positive_and_decreasing_witness :
  (1 <= idf "love" {[ "love" := [1%Z] ]} ∅ 2)%R
  /\ (idf "song" {[ "song" := [1%Z; 2%Z] ]} ∅ 2
        < idf "love" {[ "love" := [1%Z] ]} ∅ 2)%R
  /\ (0 < idf "absent" ∅ ∅ 2)%R.
Proof.
  split; [|split].
  - apply (idf_positive_and_decreasing 2 "love" "love"
             {[ "love" := [1%Z] ]} ∅ {[ "love" := [1%Z] ]} ∅).
    vm_compute. lia.
  - apply (idf_positive_and_decreasing 2 "love" "song"
             {[ "love" := [1%Z] ]} ∅ {[ "song" := [1%Z; 2%Z] ]} ∅).
    vm_compute. lia.
  - apply (idf_positive_and_decreasing 2 "absent" "absent" ∅ ∅ ∅ ∅);
      reflexivity.
Defined.

(** C2 (as stated) fails: with a catalog of one track ([N = 1]) and a
    token whose postings name six tracks, the IDF is [ln (2/7) + 1], which
    is negative. *)
Lemma idf_negative_when_df_exceeds_N :
  (idf "love" {[ "love" := [1; 2; 3; 4; 5; 6]%Z ]} ∅ 1 < 0)%R.
Proof.
  unfold idf.
  assert (Hdf : doc_freq_for_token "love"
                  {[ "love" := [1; 2; 3; 4; 5; 6]%Z ]} ∅ = 6)
    by (vm_compute; reflexivity).
  rewrite Hdf. simpl INR.
  replace ((1 + 1) / (1 + 1 + 1 + 1 + 1 + 1 + 1))%R with (/ (7 / 2))%R
    by field.
  rewrite ln_Rinv by lra.
  assert (1 < ln (7 / 2))%R; [|lra].
  rewrite <- (ln_exp 1) at 1. apply ln_increasing; [apply exp_pos|].
  pose proof exp_le_3. lra.
Qed.

(** ** Mood match score *)

Lemma elem_of_adjacent (t s : string) :
  t ∈ default (∅ : gset string) (adjacent !! s) <->
  (s = "happy" /\ (t = "hype" \/ t = "chill"))
  \/ (s = "hype" /\ t = "happy")
  \/ (s = "chill" /\ (t = "happy" \/ t = "sad" \/ t = "focus"))
  \/ (s = "sad" /\ (t = "chill" \/ t = "focus"))
  \/ (s = "focus" /\ (t = "chill" \/ t = "sad")).
Proof.
  unfold adjacent.
  repeat (rewrite lookup_insert; case_decide; [subst; simpl; set_solver|]).
  rewrite lookup_singleton. case_decide; [subst|]; simpl; set_solver.
Qed.

Lemma adjacent_symmetric (s t : string) :
  t ∈ default (∅ : gset string) (adjacent !! s) <->
  s ∈ default (∅ : gset string) (adjacent !! t).
Proof. rewrite !elem_of_adjacent. naive_solver. Qed.

Lemma nonempty_true (s : string) : nonempty s = true <-> s <> EmptyString.
Proof. destruct s; unfold nonempty; simpl; split; intros; congruence. Qed.

(** C1 (as amended): for non-empty moods the score is 1.0 on an exact
    match, 0.3 when the target mood is in the adjacency set looked up under
    the candidate's mood, and 0.0 otherwise; the adjacency table is
    symmetric, so the score of a pair does not depend on its direction. *)
Theorem mood_match_score_cases (song_mood target_mood : string) :
  song_mood <> EmptyString -> target_mood <> EmptyString ->
  (song_mood = target_mood ->
   _mood_match_score song_mood target_mood = 1%R)
  /\ (song_mood <> target_mood ->
      target_mood ∈ default (∅ : gset string) (adjacent !! song_mood) ->
      _mood_match_score song_mood target_mood = 0.3%R)
  /\ (song_mood <> target_mood ->
      target_mood ∉ default (∅ : gset string) (adjacent !! song_mood) ->
      _mood_match_score song_mood target_mood = 0%R)
  /\ _mood_match_score song_mood target_mood
     = _mood_match_score target_mood song_mood.
Proof.
  intros Hs Ht. unfold _mood_match_score.
  rewrite (proj2 (nonempty_true _) Hs), (proj2 (nonempty_true _) Ht). simpl.
  repeat split.
  - intros Heq. by rewrite bool_decide_eq_true_2.
  - intros Hne Hadj. rewrite bool_decide_eq_false_2 by done.
    by rewrite bool_decide_eq_true_2.
  - intros Hne Hadj. by rewrite !bool_decide_eq_false_2.
  - destruct (decide (song_mood = target_mood)) as [->|Hne]; [done|].
    rewrite !(bool_decide_eq_false_2 (_ = _)) by done.
    apply (f_equal (fun b : bool => if b then _ else _)).
    apply bool_decide_ext, adjacent_symmetric.
Qed.

Lemma mood_match_score_cases_witness :
  _mood_match_score "sad" "sad" = 1%R
  /\ _mood_match_score "chill" "focus" = 0.3%R
  /\ _mood_match_score "hype" "sad" = 0%R
  /\ _mood_match_score "happy" "chill" = _mood_match_score "chill" "happy".
Proof.
  split; [|split; [|split]].
  - apply (mood_match_score_cases "sad" "sad"); done.
  - apply (mood_match_score_cases "chill" "focus"); [done..|].
    compute_done.
  - apply (mood_match_score_cases "hype" "sad"); [done..|].
    compute_done.
  - apply (mood_match_score_cases "happy" "chill"); done.
Defined.

(** C1 (as stated) fails: a "hype" candidate under a "happy" target scores
    0.3, exactly as a "happy" candidate under a "hype" target does. *)
Lemma mood_match_hype_happy_both_adjacent :
  _mood_match_score "happy" "hype" = 0.3%R
  /\ _mood_match_score "hype" "happy" = 0.3%R.
Proof.
  split; unfold _mood_match_score; simpl;
    (rewrite bool_decide_eq_true_2; [reflexivity|]);
    apply elem_of_adjacent; naive_solver.
Qed.

(** ** Target vector *)

Section TempoFacts.
#[local] Open Scope R_scope.

Lemma normalize_tempo_range (tempo : R) : 0 <= _normalize_tempo tempo <= 1.
Proof.
  unfold _normalize_tempo, Rmax, Rmin.
  repeat destruct (Rle_dec _ _); lra.
Qed.

Lemma normalize_tempo_linear (tempo : R) :
  40 <= tempo <= 220 -> _normalize_tempo tempo = (tempo - 40) / 180.
Proof.
  intros H. unfold _normalize_tempo, _TEMPO_MIN, _TEMPO_MAX, Rmax, Rmin.
  replace (220 - 40) with 180 by lra.
  repeat destruct (Rle_dec _ _); lra.
Qed.

Lemma normalize_tempo_low (tempo : R) :
  tempo <= 40 -> _normalize_tempo tempo = 0.
Proof.
  intros H. unfold _normalize_tempo, _TEMPO_MIN, _TEMPO_MAX, Rmax, Rmin.
  replace (220 - 40) with 180 by lra.
  repeat destruct (Rle_dec _ _); lra.
Qed.

Lemma normalize_tempo_high (tempo : R) :
  220 <= tempo -> _normalize_tempo tempo = 1.
Proof.
  intros H. unfold _normalize_tempo, _TEMPO_MIN, _TEMPO_MAX, Rmax, Rmin.
  replace (220 - 40) with 180 by lra.
  repeat destruct (Rle_dec _ _); lra.
Qed.
End TempoFacts.

(** C9: for target mood "hype" and activity "workout" the target vector is
    (0.85, 0.75, 0.85, 0.15, (140 - 40) / 180), whatever the user profile;
    tempo normalization maps [40, 220] linearly onto [0, 1] and clamps
    outside it. *)
Theorem target_vector_hype_workout (user_profile : UserProfile) :
  build_user_audio_vector user_profile "hype" (Some "workout")
  = [0.85; 0.75; 0.85; 0.15; (140 - 40) / 180]%R
  /\ (0.5555 < (140 - 40) / 180 < 0.5556)%R
  /\ (forall tempo : R,
        (0 <= _normalize_tempo tempo <= 1)%R
        /\ ((40 <= tempo <= 220)%R ->
            _normalize_tempo tempo = ((tempo - 40) / (220 - 40))%R)
        /\ ((tempo <= 40)%R -> _normalize_tempo tempo = 0%R)
        /\ ((220 <= tempo)%R -> _normalize_tempo tempo = 1%R)).
Proof.
  split; [|split].
  - change (build_user_audio_vector user_profile "hype" (Some "workout"))
      with [0.85; 0.75; 0.85; 0.15; _normalize_tempo 140]%R.
    rewrite normalize_tempo_linear by lra. reflexivity.
  - lra.
  - intros tempo. split; [apply normalize_tempo_range|].
    split; [|split].
    + intros H. rewrite normalize_tempo_linear by done. f_equal. lra.
    + apply normalize_tempo_low.
    + apply normalize_tempo_high.
Qed.

Lemma target_vector_hype_workout_witness :
  _normalize_tempo 140 = ((140 - 40) / (220 - 40))%R
  /\ _normalize_tempo 20 = 0%R
  /\ _normalize_tempo 300 = 1%R.
Proof.
  split; [|split].
  - apply (target_vector_hype_workout (Build_UserProfile None None)). lra.
  - apply (target_vector_hype_workout (Build_UserProfile None None)). lra.
  - apply (target_vector_hype_workout (Build_UserProfile None None)). lra.
Defined.

(** ** Cosine similarity *)

Section CosineFacts.
#[local] Open Scope R_scope.

Lemma foldl_Rplus_acc (acc : R) (l : list R) :
  foldl Rplus acc l = acc + sum_R l.
Proof.
  unfold sum_R. revert acc. induction l as [|x l IH]; intros acc; simpl.
  - lra.
  - rewrite IH, (IH (0 + x)). lra.
Qed.

Lemma sum_R_cons (x : R) (l : list R) : sum_R (x :: l) = x + sum_R l.
Proof. unfold sum_R at 1. simpl. rewrite foldl_Rplus_acc. lra. Qed.

Lemma sum_squares_nonneg (a : list R) :
  0 <= sum_R (map (fun x => x * x) a).
Proof.
  induction a as [|x a IH]; [unfold sum_R; simpl; lra|].
  rewrite map_cons, sum_R_cons. pose proof (Rle_0_sqr x) as Hx.
  unfold Rsqr in Hx. lra.
Qed.

Lemma magnitude_nonneg (a : list R) : 0 <= magnitude a.
Proof. apply sqrt_pos. Qed.

(** A vector has zero magnitude exactly when all its components are
    zero. *)
Lemma magnitude_zero_iff (a : list R) :
  magnitude a = 0 <-> Forall (fun x => x = 0) a.
Proof.
  unfold magnitude. split.
  - intros H. apply sqrt_eq_0 in H; [|apply sum_squares_nonneg].
    induction a as [|x a IH]; [constructor|].
    rewrite map_cons, sum_R_cons in H.
    pose proof (sum_squares_nonneg a). pose proof (Rle_0_sqr x) as Hx.
    unfold Rsqr in Hx.
    constructor; [|apply IH; lra].
    assert (x * x = 0) as Hxx by lra.
    apply Rmult_integral in Hxx. tauto.
  - intros H. replace (sum_R (map (fun x => x * x) a)) with 0;
      [apply sqrt_0|].
    induction H as [|x a -> _ IH]; [reflexivity|].
    rewrite map_cons, sum_R_cons, <- IH. lra.
Qed.

Lemma py_div_None (x y : R) : py_div x y = None <-> y = 0.
Proof. unfold py_div. destruct (Req_dec_T y 0); split; congruence. Qed.
End CosineFacts.

Lemma magnitude_product_nonzero (a b : list R) :
  magnitude a <> 0%R -> magnitude b <> 0%R ->
  (magnitude a * magnitude b)%R <> 0%R.
Proof. intros Ha Hb Hab. apply Rmult_integral in Hab. tauto. Qed.

Lemma cosine_similarity_zero_magnitude (a b : list R) :
  magnitude a = 0%R \/ magnitude b = 0%R ->
  cosine_similarity a b = Some 0%R.
Proof.
  unfold cosine_similarity. intros [Ha | Hb].
  - by rewrite (bool_decide_eq_true_2 _ Ha).
  - rewrite (bool_decide_eq_true_2 _ Hb). by rewrite orb_true_r.
Qed.

Lemma cosine_similarity_nonzero_magnitude (a b : list R) :
  magnitude a <> 0%R -> magnitude b <> 0%R ->
  cosine_similarity a b
  = Some (sum_R (zip_with Rmult a b) / (magnitude a * magnitude b))%R.
Proof.
  intros Ha Hb. unfold cosine_similarity, py_div.
  rewrite !bool_decide_eq_false_2 by done. simpl.
  destruct (Req_dec_T _ _) as [Hz|]; [|done].
  by apply magnitude_product_nonzero in Hz.
Qed.

Lemma cosine_similarity_is_Some (a b : list R) :
  exists r, cosine_similarity a b = Some r.
Proof.
  destruct (decide (magnitude a = 0%R)) as [Ha|Ha].
  { exists 0%R. apply cosine_similarity_zero_magnitude. by left. }
  destruct (decide (magnitude b = 0%R)) as [Hb|Hb].
  { exists 0%R. apply cosine_similarity_zero_magnitude. by right. }
  eexists. by apply cosine_similarity_nonzero_magnitude.
Qed.

(** Cauchy-Schwarz for the truncating dot product of [zip]. *)
Section CauchySchwarz.
#[local] Open Scope R_scope.

Lemma dot_square_le (a b : list R) :
  sum_R (zip_with Rmult a b) * sum_R (zip_with Rmult a b)
  <= sum_R (map (fun x => x * x) a) * sum_R (map (fun x => x * x) b).
Proof.
  revert b. induction a as [|x a IH]; intros [|y b]; simpl.
  - unfold sum_R. simpl. lra.
  - unfold sum_R at 1 2 3. simpl. lra.
  - unfold sum_R at 1 2 4. simpl. lra.
  - rewrite !sum_R_cons.
    pose proof (IH b) as Hab.
    pose proof (sum_squares_nonneg a) as HA.
    pose proof (sum_squares_nonneg b) as HB.
    set (S := sum_R (zip_with Rmult a b)) in *.
    set (A := sum_R (map (fun x => x * x) a)) in *.
    set (B := sum_R (map (fun x => x * x) b)) in *.
    set (P := x * x * B). set (Q := y * y * A).
    assert (HP : 0 <= P) by (apply Rmult_le_pos; [nra|lra]).
    assert (HQ : 0 <= Q) by (apply Rmult_le_pos; [nra|lra]).
    set (T := 2 * x * y * S).
    assert (HT : T * T <= 4 * (P * Q)).
    { unfold T, P, Q.
      replace ((2 * x * y * S) * (2 * x * y * S))
        with (4 * ((x * x) * (y * y) * (S * S))) by ring.
      replace (4 * (x * x * B * (y * y * A)))
        with (4 * ((x * x) * (y * y) * (A * B))) by ring.
      apply Rmult_le_compat_l; [lra|].
      apply Rmult_le_compat_l; [|lra].
      apply Rmult_le_pos; nra. }
    assert (Hle : T <= P + Q).
    { destruct (Rle_dec T 0) as [|Hpos]; [lra|].
      pose proof (Rle_0_sqr (P - Q)) as Hpq. unfold Rsqr in Hpq.
      apply Rnot_le_lt in Hpos.
      destruct (Rle_dec T (P + Q)) as [|Hgt]; [done|].
      apply Rnot_le_lt in Hgt.
      assert ((P + Q) * (P + Q) < T * T) by nra. nra. }
    unfold T, P, Q in Hle. nra.
Qed.
End CauchySchwarz.

Section CosineRange.
#[local] Open Scope R_scope.

Lemma magnitude_sqr (a : list R) :
  magnitude a * magnitude a = sum_R (map (fun x => x * x) a).
Proof. unfold magnitude. apply sqrt_sqrt, sum_squares_nonneg. Qed.

Lemma dot_nonneg (a b : list R) :
  Forall (fun x => 0 <= x) a -> Forall (fun x => 0 <= x) b ->
  0 <= sum_R (zip_with Rmult a b).
Proof.
  intros Ha. revert b. induction Ha as [|x a Hx Ha IH]; intros b Hb.
  - unfold sum_R. simpl. lra.
  - destruct Hb as [|y b Hy Hb]; [unfold sum_R; simpl; lra|].
    simpl. rewrite sum_R_cons. specialize (IH b Hb).
    assert (0 <= x * y) by (by apply Rmult_le_pos). lra.
Qed.

(** The similarity always lies in [-1, 1]. *)
Lemma cosine_similarity_bounds (a b : list R) (r : R) :
  cosine_similarity a b = Some r -> -1 <= r <= 1.
Proof.
  intros Hr.
  destruct (decide (magnitude a = 0)) as [Ha|Ha].
  { rewrite cosine_similarity_zero_magnitude in Hr by (by left).
    injection Hr as <-. lra. }
  destruct (decide (magnitude b = 0)) as [Hb|Hb].
  { rewrite cosine_similarity_zero_magnitude in Hr by (by right).
    injection Hr as <-. lra. }
  rewrite cosine_similarity_nonzero_magnitude in Hr by done.
  injection Hr as <-.
  pose proof (magnitude_nonneg a). pose proof (magnitude_nonneg b).
  pose proof (dot_square_le a b) as Hcs.
  rewrite <- !magnitude_sqr in Hcs.
  set (d := sum_R (zip_with Rmult a b)) in *.
  set (m := magnitude a * magnitude b).
  assert (Hm : 0 < m) by (apply Rmult_lt_0_compat; lra).
  assert (Hd : d * d <= m * m) by (unfold m; nra).
  assert (- m <= d <= m) by nra.
  split.
  - apply (Rmult_le_reg_r m); [done|]. unfold Rdiv.
    rewrite Rmult_assoc, Rinv_l by lra. lra.
  - apply (Rmult_le_reg_r m); [done|]. unfold Rdiv.
    rewrite Rmult_assoc, Rinv_l by lra. lra.
Qed.

(** For vectors without negative components, as audio features are, the
    similarity lies in [0, 1]. *)
Lemma cosine_similarity_unit_interval (a b : list R) (r : R) :
  Forall (fun x => 0 <= x) a -> Forall (fun x => 0 <= x) b ->
  cosine_similarity a b = Some r -> 0 <= r <= 1.
Proof.
  intros Ha Hb Hr. split; [|by apply (cosine_similarity_bounds a b)].
  destruct (decide (magnitude a = 0)) as [Hma|Hma].
  { rewrite cosine_similarity_zero_magnitude in Hr by (by left).
    injection Hr as <-. lra. }
  destruct (decide (magnitude b = 0)) as [Hmb|Hmb].
  { rewrite cosine_similarity_zero_magnitude in Hr by (by right).
    injection Hr as <-. lra. }
  rewrite cosine_similarity_nonzero_magnitude in Hr by done.
  injection Hr as <-.
  pose proof (magnitude_nonneg a). pose proof (magnitude_nonneg b).
  apply Rmult_le_pos; [by apply dot_nonneg|].
  left. apply Rinv_0_lt_compat, Rmult_lt_0_compat; lra.
Qed.

Lemma build_feature_vector_nonneg (record : gmap string R) :
  map_Forall (fun _ v => 0 <= v) record ->
  Forall (fun x => 0 <= x) (_build_feature_vector record true).
Proof.
  intros Hrec. unfold _build_feature_vector. apply Forall_fmap, Forall_forall.
  intros feat _. simpl.
  assert (0 <= default 0.5 (record !! feat)) as Hval.
  { destruct (record !! feat) as [v|] eqn:Hv; simpl; [|lra].
    by apply (Hrec feat). }
  destruct (_ && _); [apply normalize_tempo_range|done].
Qed.
End CosineRange.

(** C7: cosine similarity always returns a value; it is 0 when either
    vector has zero magnitude; and when both magnitudes are non-zero their
    product, the divisor, is non-zero, so the division is defined. *)
Theorem cosine_similarity_total (a b : list R) :
  (exists r, cosine_similarity a b = Some r)
  /\ (magnitude a = 0%R \/ magnitude b = 0%R ->
      cosine_similarity a b = Some 0%R)
  /\ (magnitude a <> 0%R -> magnitude b <> 0%R ->
      (magnitude a * magnitude b)%R <> 0%R
      /\ cosine_similarity a b
         = Some (sum_R (zip_with Rmult a b)
                 / (magnitude a * magnitude b))%R).
Proof.
  split; [apply cosine_similarity_is_Some|].
  split; [apply cosine_similarity_zero_magnitude|].
  intros Ha Hb. split.
  - by apply magnitude_product_nonzero.
  - by apply cosine_similarity_nonzero_magnitude.
Qed.

Lemma cosine_similarity_total_witness :
  cosine_similarity [0; 0]%R [1; 2]%R = Some 0%R
  /\ cosine_similarity [1]%R [1]%R
     = Some (sum_R (zip_with Rmult [1] [1])
             / (magnitude [1] * magnitude [1]))%R.
Proof.
  assert (H1 : magnitude [1%R] <> 0%R).
  { rewrite magnitude_zero_iff. inversion 1; subst. lra. }
  split.
  - apply (cosine_similarity_total [0; 0]%R [1; 2]%R). left.
    apply magnitude_zero_iff. repeat constructor.
  - apply (cosine_similarity_total [1]%R [1]%R); exact H1.
Defined.

(** ** Candidate retrieval *)

Lemma elem_of_foldl_intersection (x : Z) (s : gset Z) (rest : list (gset Z)) :
  x ∈ foldl (∩) s rest <-> x ∈ s /\ forall t, t ∈ rest -> x ∈ t.
Proof.
  revert s. induction rest as [|t rest IH]; intros s; simpl.
  - split; [intros H; split; [done|]; intros t Ht; inversion Ht | tauto].
  - rewrite IH, elem_of_intersection. split.
    + intros [[Hs Ht] Hall]. split; [done|].
      intros u Hu. apply elem_of_cons in Hu as [->|Hu]; auto.
    + intros [Hs Hall]. split; [split; [done|]|].
      * apply Hall. by left.
      * intros u Hu. apply Hall. by right.
Qed.

Lemma elem_of_intersect_all (x : Z) (sets : list (gset Z)) :
  x ∈ intersect_all sets <-> sets <> [] /\ forall s, s ∈ sets -> x ∈ s.
Proof.
  destruct sets as [|s rest]; simpl.
  - split; [intros H; by apply not_elem_of_empty in H | intros [H _]; done].
  - rewrite elem_of_foldl_intersection. split.
    + intros [Hs Hall]. split; [done|].
      intros u Hu. apply elem_of_cons in Hu as [->|Hu]; auto.
    + intros [_ Hall]. split; [apply Hall; by left|].
      intros u Hu. apply Hall. by right.
Qed.

Lemma elem_of_genre_hits (x : Z) (genre_index : gmap string (list Z))
    (genres : list string) :
  x ∈ genre_hits genre_index genres <->
  exists g, g ∈ genres /\ g <> EmptyString
            /\ x ∈ postings genre_index (lower g).
Proof.
  unfold genre_hits.
  assert (Hgen : forall acc : gset Z,
    x ∈ foldl (fun acc g =>
                 if nonempty g then acc ∪ postings genre_index (lower g)
                 else acc) acc genres <->
    x ∈ acc \/ exists g, g ∈ genres /\ g <> EmptyString
                         /\ x ∈ postings genre_index (lower g)).
  { induction genres as [|g genres IH]; intros acc; simpl.
    - split; [tauto|]. intros [H|(g & Hg & _)]; [done|inversion Hg].
    - rewrite IH. destruct (nonempty g) eqn:Hne.
      + apply nonempty_true in Hne. rewrite elem_of_union. split.
        * intros [[H|H]|(g' & Hg' & H)]; [tauto| |].
          -- right. exists g. split; [by left|done].
          -- right. exists g'. split; [by right|done].
        * intros [H|(g' & Hg' & Hn & H)]; [tauto|].
          apply elem_of_cons in Hg' as [->|Hg']; [tauto|].
          right. by exists g'.
      + assert (g = EmptyString) as -> by (destruct g; [done|discriminate]).
        split.
        * intros [H|(g' & Hg' & H)]; [tauto|].
          right. exists g'. split; [by right|done].
        * intros [H|(g' & Hg' & Hn & H)]; [tauto|].
          apply elem_of_cons in Hg' as [->|Hg']; [done|].
          right. by exists g'. }
  rewrite Hgen. split; [|tauto]. intros [H|H]; [|done].
  by apply not_elem_of_empty in H.
Qed.

(** A multi-token text query keeps the tracks found under every token. *)
Lemma elem_of_text_query_hits (x : Z) (index : gmap string (list Z))
    (query : option string) (hits : gset Z) :
  text_query_hits index query = Some hits ->
  (x ∈ hits <-> forall w, w ∈ tokenize query -> x ∈ postings index w).
Proof.
  unfold text_query_hits. destruct (str_truthy query); [|done].
  destruct (tokenize query) as [|w ws] eqn:Hw; [done|].
  intros Heq.
  assert (hits = intersect_all (map (postings index) (w :: ws))) as ->
    by congruence.
  rewrite elem_of_intersect_all. split.
  - intros [_ H] u Hu. apply H. by apply list_elem_of_fmap_2.
  - intros H. split; [done|]. intros s Hs.
    apply list_elem_of_fmap in Hs as (u & -> & Hu). by apply H.
Qed.

Lemma active_categories_nonempty (cats : list (option (gset Z))) :
  (exists s, Some s ∈ cats) <-> omap (fun c => c) cats <> [].
Proof.
  induction cats as [|[s|] cats IH]; simpl.
  - split; [intros [s Hs]; inversion Hs | done].
  - split; [done|]. intros _. exists s. by left.
  - rewrite <- IH. split; intros [s Hs]; exists s.
    + apply elem_of_cons in Hs as [?|?]; [done|done].
    + by right.
Qed.

Lemma active_categories_forall (x : Z) (cats : list (option (gset Z))) :
  (forall s, Some s ∈ cats -> x ∈ s)
  <-> Forall (fun s => x ∈ s) (omap (fun c => c) cats).
Proof.
  rewrite Forall_forall. split.
  - intros H s Hs. apply H. apply list_elem_of_omap in Hs as (c & Hc & ->).
    done.
  - intros H s Hs. apply H. apply list_elem_of_omap. by exists (Some s).
Qed.

Lemma active_filter_sets_categories (indexes : Indexes)
    (genres : option (list string)) (mood energy : option string)
    (title_query artist_query : option string) (x : Z) :
  (active_filter_sets indexes genres mood energy title_query artist_query
     <> []
   /\ forall s,
        s ∈ active_filter_sets indexes genres mood energy
              title_query artist_query -> x ∈ s)
  <-> ((exists s, Some s ∈ category_hits indexes genres mood energy
                             title_query artist_query)
       /\ forall s, Some s ∈ category_hits indexes genres mood energy
                               title_query artist_query -> x ∈ s).
Proof.
  rewrite active_categories_nonempty, active_categories_forall.
  rewrite <- Forall_forall.
  unfold active_filter_sets, category_hits, text_hits.
  destruct (text_query_hits (ix_title indexes) title_query) as [t|];
    destruct (text_query_hits (ix_artist indexes) artist_query) as [a|];
    destruct (list_truthy genres), (str_truthy mood), (str_truthy energy);
    simpl; rewrite ?Forall_cons, ?Forall_nil, ?elem_of_intersection;
    intuition congruence.
Qed.

(** C8: with no active filter category (no title text, no artist text, no
    genres, no mood, no energy) the retriever returns the empty list. *)
Theorem no_active_filter_no_candidates (indexes : Indexes)
    (genres : option (list string)) (mood energy : option string)
    (title_query artist_query : option string) :
  str_truthy title_query = false -> str_truthy artist_query = false ->
  list_truthy genres = false ->
  str_truthy mood = false -> str_truthy energy = false ->
  retrieve_candidates indexes genres mood energy title_query artist_query
  = []
  /\ retrieve_candidate_set indexes genres mood energy
       title_query artist_query = ∅.
Proof.
  intros Ht Ha Hg Hm He.
  unfold retrieve_candidates, retrieve_candidate_set, active_filter_sets,
    text_hits, text_query_hits.
  by rewrite Ht, Ha, Hg, Hm, He.
Qed.

Lemma no_active_filter_no_candidates_witness :
  retrieve_candidates scenario_indexes None (Some EmptyString) None
    (Some EmptyString) None = []
  /\ retrieve_candidate_set scenario_indexes None (Some EmptyString) None
       (Some EmptyString) None = ∅.
Proof.
  apply (no_active_filter_no_candidates scenario_indexes None
           (Some EmptyString) None (Some EmptyString) None); reflexivity.
Defined.

Lemma elem_of_retrieve_candidates (indexes : Indexes)
    (genres : option (list string)) (mood energy : option string)
    (title_query artist_query : option string) (x : Z) :
  x ∈ retrieve_candidates indexes genres mood energy title_query artist_query
  <-> x ∈ retrieve_candidate_set indexes genres mood energy
            title_query artist_query.
Proof.
  unfold retrieve_candidates, retrieve_candidate_set.
  destruct (active_filter_sets _ _ _ _ _ _) as [|s rest].
  - simpl. rewrite elem_of_nil. split; [done|].
    intros H. by apply not_elem_of_empty in H.
  - apply elem_of_elements.
Qed.

(** C3: a track is a candidate exactly when some filter category is active
    and the track lies in the hit set of every active category (AND across
    categories); the genre hit set is the union over the requested genres
    (OR within genres); in the specification's scenario the candidate set
    is exactly {2}. *)
Theorem retrieve_candidates_and_or (indexes : Indexes)
    (genres : option (list string)) (mood energy : option string)
    (title_query artist_query : option string) :
  (forall x : Z,
     x ∈ retrieve_candidate_set indexes genres mood energy
           title_query artist_query
     <-> ((exists s, Some s ∈ category_hits indexes genres mood energy
                                title_query artist_query)
          /\ forall s, Some s ∈ category_hits indexes genres mood energy
                                  title_query artist_query -> x ∈ s))
  /\ (forall x : Z,
        x ∈ retrieve_candidates indexes genres mood energy
              title_query artist_query
        <-> x ∈ retrieve_candidate_set indexes genres mood energy
                  title_query artist_query)
  /\ (forall (x : Z) (gs : list string),
        x ∈ genre_hits (ix_genre indexes) gs
        <-> exists g, g ∈ gs /\ g <> EmptyString
                      /\ x ∈ postings (ix_genre indexes) (lower g))
  /\ (forall (x : Z) (index : gmap string (list Z)) (query : option string)
             (hits : gset Z),
        text_query_hits index query = Some hits ->
        (x ∈ hits
         <-> forall w, w ∈ tokenize query -> x ∈ postings index w))
  /\ retrieve_candidate_set scenario_indexes (Some ["pop"]) (Some "sad")
       None None None = {[ 2%Z ]}
  /\ retrieve_candidates scenario_indexes (Some ["pop"]) (Some "sad")
       None None None = [2%Z].
Proof.
  split; [|split; [|split; [|split; [|split]]]].
  - intros x. unfold retrieve_candidate_set.
    rewrite elem_of_intersect_all. apply active_filter_sets_categories.
  - apply elem_of_retrieve_candidates.
  - intros x gs. apply elem_of_genre_hits.
  - intros x index query hits. apply elem_of_text_query_hits.
  - vm_compute. reflexivity.
  - vm_compute. reflexivity.
Qed.

Lemma retrieve_candidates_and_or_witness :
  (forall w, w ∈ tokenize (Some "Love") ->
             2%Z ∈ postings {[ "love" := [2%Z] ]} w)
  /\ retrieve_candidate_set scenario_indexes (Some ["pop"]) (Some "sad")
       None None None = {[ 2%Z ]}.
Proof.
  destruct (retrieve_candidates_and_or scenario_indexes None None None
              None None) as (_ & _ & _ & Htext & Hscenario & _).
  split; [|exact Hscenario].
  apply (Htext 2%Z {[ "love" := [2%Z] ]} (Some "Love")
           (postings {[ "love" := [2%Z] ]} "love")).
  - reflexivity.
  - vm_compute. reflexivity.
Defined.

(** ** Rounding *)

Section RoundingFacts.
#[local] Open Scope R_scope.




(** Rounding to the nearest integer moves a number by at most a half. *)
Lemma round_half_even_error (x : R) :
  Rabs (IZR (round_half_even x) - x) <= 1 / 2.
Proof.
  unfold round_half_even.
  pose proof (base_fp x) as [Hge Hlt]. unfold frac_part in *.
  apply Rabs_le.
  destruct (Rlt_dec _ _); [lra|].
  destruct (Rlt_dec _ _); [rewrite plus_IZR; lra|].
  destruct (Z.even _); [lra|rewrite plus_IZR; lra].
Qed.

Lemma pow10_pos (n : nat) : 0 < 10 ^ n.
Proof. apply pow_lt. lra. Qed.

(** [round(x, n)] moves a number by at most half a unit of the [n]-th
    decimal. *)
Lemma py_round_error (x : R) (n : nat) :
  Rabs (py_round x n - x) <= / (2 * 10 ^ n).
Proof.
  unfold py_round. pose proof (pow10_pos n) as Hp.
  pose proof (round_half_even_error (x * 10 ^ n)) as He.
  replace (IZR (round_half_even (x * 10 ^ n)) / 10 ^ n - x)
    with ((IZR (round_half_even (x * 10 ^ n)) - x * 10 ^ n) * / 10 ^ n)
    by (field; lra).
  rewrite Rabs_mult, (Rabs_pos_eq (/ 10 ^ n))
    by (left; by apply Rinv_0_lt_compat).
  rewrite Rinv_mult.
  apply Rmult_le_compat_r; [left; by apply Rinv_0_lt_compat|lra].
Qed.


End RoundingFacts.

(** ** Candidate score *)

Lemma mood_match_score_values (song_mood target_mood : string) :
  _mood_match_score song_mood target_mood = 0%R
  \/ _mood_match_score song_mood target_mood = 0.3%R
  \/ _mood_match_score song_mood target_mood = 1%R.
Proof.
  unfold _mood_match_score.
  destruct (_ || _); [tauto|]. repeat case_bool_decide; tauto.
Qed.

Lemma genre_match_score_values (song_genre : string)
    (user_genres : list string) :
  _genre_match_score song_genre user_genres = 0%R
  \/ _genre_match_score song_genre user_genres = 1%R.
Proof.
  unfold _genre_match_score.
  destruct (_ || _); [tauto|]. case_bool_decide; tauto.
Qed.

(** The final score and the breakdown, once the similarity is known. *)
Lemma score_candidate_song_eq (song : Song) (user_vector : list R)
    (target_mood : string) (user_genres : list string) (sim : R) :
  cosine_similarity user_vector (_build_feature_vector (num_cols song) true)
  = Some sim ->
  let mood_sc := _mood_match_score (get_str song "mood_bucket") target_mood in
  let genre_sc := _genre_match_score (get_str song "genre") user_genres in
  let pop_sc := (default 50 (num_cols song !! "popularity") / 100)%R in
  let final :=
    (0.45 * sim + 0.25 * mood_sc + 0.15 * genre_sc + 0.15 * pop_sc)%R in
  score_candidate_song song user_vector target_mood user_genres
  = Some (final,
          {[ "audio_similarity" := py_round sim 4;
             "mood_match" := py_round mood_sc 4;
             "genre_match" := py_round genre_sc 4;
             "popularity" := py_round pop_sc 4;
             "final_score" := py_round final 4 ]}).
Proof. intros Hsim. unfold score_candidate_song. by rewrite Hsim. Qed.


(** C5: when the cosine similarity lies in [0,1] and the popularity in
    [0,100], the final score
    0.45 sim + 0.25 mood + 0.15 genre + 0.15 (popularity / 100) lies in
    [0,1] (the mood component is 0, 0.3 or 1 and the genre component 0 or
    1), and the breakdown holds the four components and the final score,
    each rounded to 4 decimals. *)
Theorem final_score_in_unit_interval (song : Song) (user_vector : list R)
    (target_mood : string) (user_genres : list string) (sim : R) :
  cosine_similarity user_vector (_build_feature_vector (num_cols song) true)
  = Some sim ->
  (0 <= sim <= 1)%R ->
  (0 <= default 50 (num_cols song !! "popularity") <= 100)%R ->
  exists (final mood_sc genre_sc pop_sc : R) (breakdown : gmap string R),
    score_candidate_song song user_vector target_mood user_genres
    = Some (final, breakdown)
    /\ mood_sc = _mood_match_score (get_str song "mood_bucket") target_mood
    /\ genre_sc = _genre_match_score (get_str song "genre") user_genres
    /\ pop_sc = (default 50 (num_cols song !! "popularity") / 100)%R
    /\ (mood_sc = 0 \/ mood_sc = 0.3 \/ mood_sc = 1)%R
    /\ (genre_sc = 0 \/ genre_sc = 1)%R
    /\ final
       = (0.45 * sim + 0.25 * mood_sc + 0.15 * genre_sc + 0.15 * pop_sc)%R
    /\ (0 <= final <= 1)%R
    /\ breakdown
       = {[ "audio_similarity" := py_round sim 4;
            "mood_match" := py_round mood_sc 4;
            "genre_match" := py_round genre_sc 4;
            "popularity" := py_round pop_sc 4;
            "final_score" := py_round final 4 ]}
    /\ (forall v : R, Rabs (py_round v 4 - v) <= 0.00005)%R.
Proof.
  intros Hsim Hrange Hpop.
  pose proof (mood_match_score_values (get_str song "mood_bucket")
                target_mood) as Hm.
  pose proof (genre_match_score_values (get_str song "genre") user_genres)
    as Hg.
  do 5 eexists.
  split; [by apply score_candidate_song_eq|].
  do 3 (split; [reflexivity|]).
  split; [exact Hm|]. split; [exact Hg|]. split; [reflexivity|].
  split; [|split; [reflexivity|]].
  - destruct Hm as [-> | [-> | ->]], Hg as [-> | ->]; lra.
  - intros v. pose proof (py_round_error v 4) as H.
    replace (/ (2 * 10 ^ 4))%R with 0.00005%R in H by (simpl; lra). exact H.
Qed.

Lemma final_score_in_unit_interval_witness :
  let song :=
    Build_Song {[ "genre" := "pop"; "mood_bucket" := "hype" ]}
      {[ "energy" := 0.8%R; "tempo" := 128%R; "popularity" := 80%R ]} in
  let user_vector :=
    build_user_audio_vector (Build_UserProfile None None) "hype"
      (Some "workout") in
  exists (final : R) (breakdown : gmap string R),
    score_candidate_song song user_vector "hype" ["Pop"]
    = Some (final, breakdown)
    /\ (0 <= final <= 1)%R.
Proof.
  intros song user_vector.
  destruct (cosine_similarity_is_Some user_vector
              (_build_feature_vector (num_cols song) true)) as [sim Hsim].
  assert (Hrange : (0 <= sim <= 1)%R).
  { apply (cosine_similarity_unit_interval _ _ _) in Hsim; [done| |].
    - change user_vector
        with [0.85; 0.75; 0.85; 0.15; _normalize_tempo 140]%R.
      repeat (constructor; [lra|]).
      constructor; [apply normalize_tempo_range|constructor].
    - apply build_feature_vector_nonneg. unfold song. simpl.
      repeat (apply map_Forall_insert_2; [lra|]).
      apply map_Forall_empty. }
  assert (Hpop : (0 <= default 50 (num_cols song !! "popularity") <= 100)%R).
  { change (default 50%R (num_cols song !! "popularity")) with 80%R. lra. }
  destruct (final_score_in_unit_interval song user_vector "hype" ["Pop"]
              sim Hsim Hrange Hpop)
    as (final & mood_sc & genre_sc & pop_sc & breakdown & Hscore
        & _ & _ & _ & _ & _ & _ & Hfinal & _).
  exists final, breakdown. split; [exact Hscore|exact Hfinal].
Defined.

(** ** Missing popularity *)




(** ** Ranking order *)


Section SortFacts.
Context {A K : Type} (leb : K -> K -> bool) (key : A -> K).



Hypothesis leb_total : forall k1 k2, leb k1 k2 = false -> leb k2 k1 = true.



End SortFacts.













(** ** Time-context confidence *)

Section SumFacts.
#[local] Open Scope R_scope.



End SumFacts.

Section FoldInsertFacts.
Context {B V : Type} (k : B -> string) (v : B -> V).



End FoldInsertFacts.

Section GroupFacts.
Context {A : Type} (key : A -> string).







End GroupFacts.

Section ConfidenceFacts.
Variable mode_first : list string -> string.
Variable value_counts_index : list string -> list string.



End ConfidenceFacts.



